(** * freetype-pp: the C++ adapter over the FreeType engine

    A shallow embedding of [inc/freetype/freetype.hpp] (namespace [ft]):
    the exception classes, the [Glyph] view, the [Face] and [Library]
    owners.  The FreeType engine itself is an external C library; it is
    taken as a parameter (the classes [Externals] and [Engine]).  The
    adapter's member functions are programs of a small monad [Prog] whose
    only effects are a call into the engine, a read of an engine-owned
    field through a handle, and a C++ [throw]. *)

From Stdlib Require Import ZArith List String Ascii Bool Lia.
Import ListNotations.
Local Open Scope string_scope.
Local Open Scope Z_scope.

(** ** Integers and handles *)

(** [uint32_t], [FT_UInt], [FT_ULong], [FT_Long] and [FT_Error] values are
    integers, a [uint32_t] one lying in [0, 2^32); a [uint32_t] computation
    wraps modulo [2^32]. *)
Definition uint32_max_plus_1 : Z := 2 ^ 32.
Definition to_uint32 (x : Z) : Z := x mod uint32_max_plus_1.
Definition uint32_mul (a b : Z) : Z := to_uint32 (a * b).

Definition FT_Error := Z.
Definition FT_UInt := Z.
Definition FT_UInt32 := Z.
Definition FT_ULong := Z.
Definition FT_Long := Z.
Definition uint32_t := Z.

(** The engine's handles are pointers to engine-owned structures. *)
Definition FT_Library := Z.
Definition FT_Face := Z.
Definition FT_GlyphSlot := Z.
Definition FT_Size := Z.
Definition nullptr : Z := 0.

(** [using CharCode = FT_ULong;] *)
Definition CharCode := FT_ULong.

(** [constexpr auto default_dpi = 96;] *)
Definition default_dpi : Z := 96.

(** C++ contextual conversion of an integer to [bool]: [if (x)]. *)
Definition nonzero (x : Z) : bool := negb (x =? 0).

(** [std::string::c_str()] read as a C string: the characters before the
    first NUL. *)
Fixpoint c_str (s : string) : string :=
  match s with
  | EmptyString => EmptyString
  | String c rest =>
      if Ascii.eqb c zero then EmptyString else String c (c_str rest)
  end.

(** Whether a [std::string] holds no NUL character. *)
Fixpoint nul_free (s : string) : bool :=
  match s with
  | EmptyString => true
  | String c rest => negb (Ascii.eqb c zero) && nul_free rest
  end.

(** ** What the adapter takes from outside this repository

    The declarations of ["freetype/freetype.h"] and of [<filesystem>] that
    the header uses: opaque data types, three constants, the engine's
    error-description table, and the path-to-string conversion. *)
Class Externals : Type := {
  FT_Glyph_Metrics : Type;
  FT_Bitmap : Type;
  FT_Size_Metrics : Type;
  FT_Render_Mode : Type;
  FT_RENDER_MODE_NORMAL : FT_Render_Mode;
  FT_LOAD_DEFAULT : FT_UInt32;
  FT_Err_Invalid_Character_Code : FT_Error;
  FT_Error_String : FT_Error -> string;
  fs_path : Type;
  path_string : fs_path -> string
}.

Section Adapter.
Context {X : Externals}.

(** using GlyphMetrics = FT_Glyph_Metrics;  using Bitmap = FT_Bitmap; *)
Definition GlyphMetrics : Type := FT_Glyph_Metrics.
Definition Bitmap : Type := FT_Bitmap.

(** The engine functions the header calls, with the arguments the adapter
    passes.  An output parameter ([FT_Library*], [FT_Face*]) is modelled by
    the call returning, next to the error code, the handle it left in the
    caller's variable. *)
Inductive FT_Call : Type :=
| FT_Init_FreeType
| FT_Done_FreeType (library : FT_Library)
| FT_New_Face (library : FT_Library) (filepathname : string)
              (face_index : FT_Long)
| FT_Done_Face (face : FT_Face)
| FT_Set_Char_Size (face : FT_Face) (char_width char_height : Z)
                   (horz_resolution vert_resolution : Z)
| FT_Get_Char_Index (face : FT_Face) (charcode : FT_ULong)
| FT_Load_Glyph (face : FT_Face) (glyph_index : FT_UInt) (load_flags : Z)
| FT_Render_Glyph (slot : FT_GlyphSlot) (render_mode : FT_Render_Mode).

Definition FT_Result (c : FT_Call) : Type :=
  match c with
  | FT_Init_FreeType => (FT_Error * FT_Library)%type
  | FT_New_Face _ _ _ => (FT_Error * FT_Face)%type
  | FT_Get_Char_Index _ _ => FT_UInt
  | _ => FT_Error
  end.

(** The engine-owned fields the header reads through a handle. *)
Inductive FT_Field : Type :=
| face_glyph (face : FT_Face)           (* face->glyph *)
| face_size (face : FT_Face)            (* face->size *)
| size_metrics (size : FT_Size)         (* size->metrics *)
| slot_metrics (slot : FT_GlyphSlot)    (* slot->metrics *)
| slot_bitmap (slot : FT_GlyphSlot)     (* slot->bitmap *)
| slot_bitmap_left (slot : FT_GlyphSlot)
| slot_bitmap_top (slot : FT_GlyphSlot).

Definition FT_FieldType (f : FT_Field) : Type :=
  match f with
  | face_glyph _ => FT_GlyphSlot
  | face_size _ => FT_Size
  | size_metrics _ => FT_Size_Metrics
  | slot_metrics _ => FT_Glyph_Metrics
  | slot_bitmap _ => FT_Bitmap
  | slot_bitmap_left _ => Z
  | slot_bitmap_top _ => Z
  end.

(** ** Exceptions (lines 21-35) *)

(** An exception object in flight: its dynamic class, the message held by
    the [std::runtime_error] base, and for the derived class its [_code]. *)
Inductive exn : Type :=
| ExceptionObj (what_arg : string)
| InvalidCharCodeExceptionObj (what_arg : string) (_code : CharCode).

(** [std::runtime_error::what()] *)
Definition what (e : exn) : string :=
  match e with
  | ExceptionObj m => m
  | InvalidCharCodeExceptionObj m _ => m
  end.

(** [explicit Exception(FT_Error error)
       : std::runtime_error(FT_Error_String(error)) {}] *)
Definition Exception (error : FT_Error) : exn :=
  ExceptionObj (FT_Error_String error).

(** [explicit InvalidCharCodeException(CharCode code)
       : Exception(FT_Err_Invalid_Character_Code), _code{code} {}] *)
Definition InvalidCharCodeException (code : CharCode) : exn :=
  InvalidCharCodeExceptionObj
    (what (Exception FT_Err_Invalid_Character_Code)) code.

(** [auto code() const { return _code; }], a member of the derived class
    only. *)
Definition code (e : exn) : option CharCode :=
  match e with
  | ExceptionObj _ => None
  | InvalidCharCodeExceptionObj _ c => Some c
  end.

(** ** The monad of adapter code *)

Inductive Prog (A : Type) : Type :=
| Ret (a : A)
| Throw (e : exn)
| Call (c : FT_Call) (k : FT_Result c -> Prog A)
| Load (f : FT_Field) (k : FT_FieldType f -> Prog A).

Arguments Ret {A} a.
Arguments Throw {A} e.
Arguments Call {A} c k.
Arguments Load {A} f k.

Fixpoint bind {A B : Type} (m : Prog A) (g : A -> Prog B) : Prog B :=
  match m with
  | Ret a => g a
  | Throw e => Throw e
  | Call c k => Call c (fun r => bind (k r) g)
  | Load f k => Load f (fun v => bind (k v) g)
  end.

Definition call (c : FT_Call) : Prog (FT_Result c) := Call c Ret.
Definition load (f : FT_Field) : Prog (FT_FieldType f) := Load f Ret.

End Adapter.

Arguments Ret {X A} a.
Arguments Throw {X A} e.
Arguments Call {X A} c k.
Arguments Load {X A} f k.

Declare Scope prog_scope.
Delimit Scope prog_scope with prog.
Notation "x <- m ;; k" := (bind m (fun x => k))
  (at level 61, m at next level, right associativity) : prog_scope.
Notation "' pat <- m ;; k" := (bind m (fun x => match x with pat => k end))
  (at level 61, pat pattern, m at next level, right associativity) : prog_scope.
Local Open Scope prog_scope.

(** ** The engine

    An engine gives each call its result and its effect on the engine's
    memory [World], and each field its value in a given memory. *)
Class Engine {X : Externals} : Type := {
  World : Type;
  ft_call : forall c : FT_Call, World -> FT_Result c * World;
  ft_load : forall f : FT_Field, World -> FT_FieldType f
}.

Section Semantics.
Context {X : Externals} {E : Engine}.

Inductive Outcome (A : Type) : Type :=
| Returned (a : A)
| Thrown (e : exn).

Arguments Returned {A} a.
Arguments Thrown {A} e.

(** What running a program gives: how it ended, the engine's memory then,
    and the engine calls made, in order. *)
Record Run (A : Type) : Type := mkRun {
  outcome : Outcome A;
  world : World;
  trace : list FT_Call
}.

Arguments mkRun {A} outcome world trace.
Arguments outcome {A} r.
Arguments world {A} r.
Arguments trace {A} r.

Fixpoint exec {A : Type} (p : Prog A) (w : World) : Run A :=
  match p with
  | Ret a => mkRun (Returned a) w []
  | Throw e => mkRun (Thrown e) w []
  | Call c k =>
      let rw := ft_call c w in
      let r := exec (k (fst rw)) (snd rw) in
      mkRun (outcome r) (world r) (c :: trace r)
  | Load f k => exec (k (ft_load f w)) w
  end.

End Semantics.

Arguments Returned {A} a.
Arguments Thrown {A} e.
Arguments mkRun {X E A} outcome world trace.
Arguments outcome {X E A} r.
Arguments world {X E A} r.
Arguments trace {X E A} r.

(** ** The three classes (lines 37-147)

    Each object holds one raw handle.  A defaulted move constructor moves
    the members one by one, and moving a pointer copies it; the deleted copy
    constructors are not operations at all. *)
Record Glyph : Type := mkGlyph { _glyph : FT_GlyphSlot }.
Record Face : Type := mkFace { _face : FT_Face }.
Record Library : Type := mkLibrary { _library : FT_Library }.

Module Glyph.
Section Members.
Context {X : Externals}.

(** [explicit Glyph(FT_GlyphSlot slot) : _glyph{slot} {}] *)
Definition ctor (slot : FT_GlyphSlot) : Glyph := mkGlyph slot.

(** [Glyph(Glyph&&) = default;] *)
Definition move (other : Glyph) : Glyph := mkGlyph (_glyph other).

(** [auto& metrics() const { return _glyph->metrics; }] and the three other
    accessors: what the caller sees through the view at the time it looks. *)
Definition metrics (g : Glyph) : Prog GlyphMetrics :=
  load (slot_metrics (_glyph g)).

Definition bitmap (g : Glyph) : Prog Bitmap :=
  load (slot_bitmap (_glyph g)).

Definition bitmap_left (g : Glyph) : Prog Z :=
  load (slot_bitmap_left (_glyph g)).

Definition bitmap_top (g : Glyph) : Prog Z :=
  load (slot_bitmap_top (_glyph g)).

(** [auto render(FT_Render_Mode renderMode = FT_RENDER_MODE_NORMAL)] *)
Definition render (g : Glyph) (renderMode : FT_Render_Mode) : Prog unit :=
  error <- call (FT_Render_Glyph (_glyph g) renderMode) ;;
  if nonzero error then Throw (Exception error) else Ret tt.

Definition render_default (g : Glyph) : Prog unit :=
  render g FT_RENDER_MODE_NORMAL.

End Members.
End Glyph.

Module Face.
Section Members.
Context {X : Externals}.

(** [Face(FT_Face face) : _face{face} {}], a public constructor. *)
Definition ctor (face : FT_Face) : Face := mkFace face.

(** [Face(Face&&) = default;] *)
Definition move (other : Face) : Face := mkFace (_face other).

(** [~Face()]: the [throw] in the branch is commented out in the source. *)
Definition dtor (f : Face) : Prog unit :=
  error <- call (FT_Done_Face (_face f)) ;;
  if nonzero error then Ret tt else Ret tt.

(** [auto set_char_size(uint32_t width, uint32_t height,
                        uint32_t horz_res, uint32_t vert_res)] *)
Definition set_char_size (f : Face) (width height horz_res vert_res : uint32_t)
  : Prog unit :=
  error <- call (FT_Set_Char_Size (_face f) width height horz_res vert_res) ;;
  if nonzero error then Throw (Exception error) else Ret tt.

(** [auto set_char_size(uint32_t pt, uint32_t dpi = default_dpi)
       { set_char_size(0, pt * 64, 0, dpi); }]
    The product is a [uint32_t] expression. *)
Definition set_char_size_pt (f : Face) (pt dpi : uint32_t) : Prog unit :=
  set_char_size f 0 (uint32_mul pt 64) 0 dpi.

Definition set_char_size_pt_default (f : Face) (pt : uint32_t) : Prog unit :=
  set_char_size_pt f pt default_dpi.

(** [[[nodiscard]] auto get_char_index(CharCode code) const] *)
Definition get_char_index (f : Face) (code : CharCode) : Prog FT_UInt :=
  index <- call (FT_Get_Char_Index (_face f) code) ;;
  if negb (nonzero index) then Throw (InvalidCharCodeException code)
  else Ret index.

(** [auto load_glyph(FT_UInt32 index, FT_UInt32 flags = FT_LOAD_DEFAULT)
       -> Glyph] *)
Definition load_glyph (f : Face) (index flags : FT_UInt32) : Prog Glyph :=
  error <- call (FT_Load_Glyph (_face f) index flags) ;;
  if nonzero error then Throw (Exception error)
  else slot <- load (face_glyph (_face f)) ;; Ret (Glyph.ctor slot).

Definition load_glyph_default (f : Face) (index : FT_UInt32) : Prog Glyph :=
  load_glyph f index FT_LOAD_DEFAULT.

(** [const auto& metrics() const { return _face->size->metrics; }] *)
Definition metrics (f : Face) : Prog FT_Size_Metrics :=
  size <- load (face_size (_face f)) ;; load (size_metrics size).

End Members.
End Face.

Module Library.
Section Members.
Context {X : Externals}.

(** [[[nodiscard]] static auto create_library() -> FT_Library] (private) *)
Definition create_library : Prog FT_Library :=
  '(error, lib) <- call FT_Init_FreeType ;;
  if nonzero error then Throw (Exception error) else Ret lib.

(** [Library() : _library{create_library()} {}] *)
Definition ctor : Prog Library :=
  lib <- create_library ;; Ret (mkLibrary lib).

(** [Library(Library&&) = default;] *)
Definition move (other : Library) : Library := mkLibrary (_library other).

(** [~Library()]: the [throw] in the branch is commented out in the source. *)
Definition dtor (l : Library) : Prog unit :=
  error <- call (FT_Done_FreeType (_library l)) ;;
  if nonzero error then Ret tt else Ret tt.

(** [[[nodiscard]] auto new_face(const char* path, FT_Long index = 0)
       -> Face] *)
Definition new_face (l : Library) (path : string) (index : FT_Long)
  : Prog Face :=
  '(error, face) <- call (FT_New_Face (_library l) path index) ;;
  if nonzero error then Throw (Exception error) else Ret (Face.ctor face).

(** [new_face(const std::string& path, FT_Long index = 0)] *)
Definition new_face_string (l : Library) (path : string) (index : FT_Long)
  : Prog Face :=
  new_face l (c_str path) index.

(** [new_face(const std::filesystem::path& path, FT_Long index = 0)] *)
Definition new_face_path (l : Library) (path : fs_path) (index : FT_Long)
  : Prog Face :=
  new_face_string l (path_string path) index.

(** The three overloads called without [index]. *)
Definition new_face_default (l : Library) (path : string) : Prog Face :=
  new_face l path 0.

Definition new_face_string_default (l : Library) (path : string) : Prog Face :=
  new_face_string l path 0.

Definition new_face_path_default (l : Library) (path : fs_path) : Prog Face :=
  new_face_path l path 0.

End Members.
End Library.

(** ** What client code can build a [Face] from

    The public constructors of [Face] (lines 65-67; the deleted copy
    constructor is none) and the [new_face] overloads of [Library]. *)
Section FaceSources.
Context {X : Externals}.

Inductive FaceSource : Type :=
| from_handle (face : FT_Face)
| from_move (other : Face)
| from_new_face (l : Library) (path : string) (index : FT_Long)
| from_new_face_string (l : Library) (path : string) (index : FT_Long)
| from_new_face_path (l : Library) (path : fs_path) (index : FT_Long).

Definition obtain (s : FaceSource) : Prog Face :=
  match s with
  | from_handle face => Ret (Face.ctor face)
  | from_move other => Ret (Face.move other)
  | from_new_face l path index => Library.new_face l path index
  | from_new_face_string l path index => Library.new_face_string l path index
  | from_new_face_path l path index => Library.new_face_path l path index
  end.

Definition is_move (s : FaceSource) : bool :=
  match s with from_move _ => true | _ => false end.

Definition is_FT_New_Face (c : FT_Call) : bool :=
  match c with FT_New_Face _ _ _ => true | _ => false end.

End FaceSources.

(** ** The engine's side of the contract *)
Section Contracts.
Context {X : Externals} {E : Engine}.

(** The error code and the handle a call with an output parameter gives. *)
Definition init_error (w : World) : FT_Error :=
  fst (fst (ft_call FT_Init_FreeType w)).
Definition init_handle (w : World) : FT_Library :=
  snd (fst (ft_call FT_Init_FreeType w)).

(** [FT_Init_FreeType] reports success only with a library stored. *)
Definition init_contract : Prop :=
  forall w : World, init_error w = 0 -> init_handle w <> nullptr.

(** A face has one glyph slot: loading a glyph fills it and leaves
    [face->glyph] pointing where it did. *)
Definition single_slot_contract : Prop :=
  forall (face : FT_Face) (index flags : Z) (w : World),
    ft_load (face_glyph face) (snd (ft_call (FT_Load_Glyph face index flags) w))
    = ft_load (face_glyph face) w.

(** A fallible member function that makes the one engine call [c], which
    gives code [error] and leaves the engine in [w']: it raises the generic
    exception of that code when the code is not zero and returns [value]
    when it is, with nothing done in between or after. *)
Definition checked_at_once {A : Type} (r : Run A) (c : FT_Call)
    (error : FT_Error) (w' : World) (value : A) : Prop :=
  trace r = [c] /\ world r = w' /\
  (error <> 0 -> outcome r = Thrown (Exception error)) /\
  (error = 0 -> outcome r = Returned value).

(** The reading of "a Face is obtained only through new_face": whatever
    yields a [Face], other than moving one that exists, has called
    [FT_New_Face]. *)
Definition only_through_new_face : Prop :=
  forall (s : FaceSource) (w : World) (f : Face),
    is_move s = false ->
    outcome (exec (obtain s) w) = Returned f ->
    existsb is_FT_New_Face (trace (exec (obtain s) w)) = true.

End Contracts.

(** ** Kinds of failure *)
Section Failures.
Context {X : Externals}.

(** An exception of class [Exception] itself, built from a nonzero engine
    code; it has no [code()]. *)
Definition generic_failure (e : exn) : Prop :=
  exists error : FT_Error, error <> 0 /\ e = Exception error.

End Failures.

(** ** Two loads on one face

    The caller of the shared-slot property: it loads one glyph and keeps
    the view, loads another, and then looks through a view. *)
Section TwoLoads.
Context {X : Externals}.

(** Look through the first view after the second load. *)
Definition first_view_after_second_load {A : Type}
    (f : Face) (i1 fl1 i2 fl2 : FT_UInt32) (inspect : Glyph -> Prog A)
  : Prog A :=
  g1 <- Face.load_glyph f i1 fl1 ;;
  g2 <- Face.load_glyph f i2 fl2 ;;
  inspect g1.

(** Look through the second view after the second load. *)
Definition second_view_after_second_load {A : Type}
    (f : Face) (i1 fl1 i2 fl2 : FT_UInt32) (inspect : Glyph -> Prog A)
  : Prog A :=
  g1 <- Face.load_glyph f i1 fl1 ;;
  g2 <- Face.load_glyph f i2 fl2 ;;
  inspect g2.

(** Look through the first view before any second load. *)
Definition first_view_before_second_load {A : Type}
    (f : Face) (i1 fl1 : FT_UInt32) (inspect : Glyph -> Prog A) : Prog A :=
  g1 <- Face.load_glyph f i1 fl1 ;;
  inspect g1.

(** Both views, as the two calls returned them. *)
Definition both_views (f : Face) (i1 fl1 i2 fl2 : FT_UInt32)
  : Prog (Glyph * Glyph) :=
  g1 <- Face.load_glyph f i1 fl1 ;;
  g2 <- Face.load_glyph f i2 fl2 ;;
  Ret (g1, g2).

End TwoLoads.

(** ** A small engine to run the adapter on

    One font file with one face, one hundred glyphs and the printable ASCII
    characters mapped; all handles are fixed addresses. *)
Module Toy.

Inductive render_mode : Type := NORMAL | MONO.

Definition error_string (error : FT_Error) : string :=
  if error =? 0x01 then "cannot open resource"
  else if error =? 0x06 then "invalid argument"
  else if error =? 0x10 then "invalid glyph index"
  else if error =? 0x11 then "invalid character code"
  else if error =? 0x21 then "invalid library handle"
  else if error =? 0x23 then "invalid face handle"
  else if error =? 0x25 then "invalid slot handle"
  else if error =? 0x40 then "out of memory"
  else "unknown error".

Definition join_path (components : list string) : string :=
  String.concat "/" components.

Definition externals : Externals := {|
  FT_Glyph_Metrics := Z;
  FT_Bitmap := Z * Z;
  FT_Size_Metrics := Z;
  FT_Render_Mode := render_mode;
  FT_RENDER_MODE_NORMAL := NORMAL;
  FT_LOAD_DEFAULT := 0;
  FT_Err_Invalid_Character_Code := 0x11;
  FT_Error_String := error_string;
  fs_path := list string;
  path_string := join_path
|}.

Record world : Type := mkWorld {
  can_allocate : bool;
  library_open : bool;
  face_open : bool;
  char_size : Z * Z * Z * Z;
  loaded_glyph : Z;
  rendered : bool
}.

Definition library_handle : Z := 0x1000.
Definition face_handle : Z := 0x2000.
Definition slot_handle : Z := 0x3000.
Definition size_handle : Z := 0x4000.
Definition font_file : string := "DejaVuSans.ttf".

Definition toy_call (c : @FT_Call externals) (w : world)
  : @FT_Result externals c * world :=
  match c as c' return @FT_Result externals c' * world with
  | FT_Init_FreeType =>
      if can_allocate w
      then ((0, library_handle),
            mkWorld (can_allocate w) true (face_open w) (char_size w)
                    (loaded_glyph w) (rendered w))
      else ((0x40, nullptr), w)
  | FT_Done_FreeType library =>
      if (library =? library_handle) && library_open w
      then (0, mkWorld (can_allocate w) false (face_open w) (char_size w)
                       (loaded_glyph w) (rendered w))
      else (0x21, w)
  | FT_New_Face library filepathname face_index =>
      if negb ((library =? library_handle) && library_open w)
      then ((0x21, nullptr), w)
      else if negb (String.eqb filepathname font_file)
      then ((0x01, nullptr), w)
      else if negb (face_index =? 0)
      then ((0x06, nullptr), w)
      else ((0, face_handle),
            mkWorld (can_allocate w) (library_open w) true (char_size w)
                    (loaded_glyph w) (rendered w))
  | FT_Done_Face face =>
      if (face =? face_handle) && face_open w
      then (0, mkWorld (can_allocate w) (library_open w) false (char_size w)
                       (loaded_glyph w) (rendered w))
      else (0x23, w)
  | FT_Set_Char_Size face cw ch hr vr =>
      if (face =? face_handle) && face_open w
      then (0, mkWorld (can_allocate w) (library_open w) (face_open w)
                       (cw, ch, hr, vr) (loaded_glyph w) (rendered w))
      else (0x23, w)
  | FT_Get_Char_Index face charcode =>
      if (face =? face_handle) && (32 <=? charcode) && (charcode <=? 126)
      then (charcode - 29, w)
      else (0, w)
  | FT_Load_Glyph face glyph_index load_flags =>
      if negb ((face =? face_handle) && face_open w)
      then (0x23, w)
      else if (0 <=? glyph_index) && (glyph_index <? 100)
      then (0, mkWorld (can_allocate w) (library_open w) (face_open w)
                       (char_size w) glyph_index false)
      else (0x10, w)
  | FT_Render_Glyph slot render_mode =>
      if slot =? slot_handle
      then (0, mkWorld (can_allocate w) (library_open w) (face_open w)
                       (char_size w) (loaded_glyph w) true)
      else (0x25, w)
  end.

Definition toy_load (f : FT_Field) (w : world) : @FT_FieldType externals f :=
  match f as f' return @FT_FieldType externals f' with
  | face_glyph face => if face =? face_handle then slot_handle else nullptr
  | face_size face => if face =? face_handle then size_handle else nullptr
  | size_metrics size => snd (fst (fst (char_size w)))
  | slot_metrics slot => 64 * loaded_glyph w
  | slot_bitmap slot =>
      if rendered w then (loaded_glyph w, loaded_glyph w) else (0, 0)
  | slot_bitmap_left slot => if rendered w then 1 else 0
  | slot_bitmap_top slot => if rendered w then loaded_glyph w else 0
  end.

Definition engine : @Engine externals := {|
  World := world;
  ft_call := toy_call;
  ft_load := toy_load
|}.

(** Before the library is initialised, and with a face open. *)
Definition fresh : world := mkWorld true false false (0, 0, 0, 0) 0 false.
Definition exhausted : world := mkWorld false false false (0, 0, 0, 0) 0 false.
Definition opened : world := mkWorld true true true (0, 0, 0, 0) 0 false.

Definition the_library : Library := mkLibrary library_handle.
Definition the_face : Face := mkFace face_handle.

(** The scenario of the specification: open the font, set 12 pt at the
    default 96 dpi, look up 'A', load it, render it, read the bitmap. *)
Definition scenario : @Prog externals (Z * Z) :=
  lib <- Library.ctor ;;
  face <- Library.new_face_default lib font_file ;;
  _ <- Face.set_char_size_pt_default face 12 ;;
  index <- Face.get_char_index face 65 ;;
  glyph <- Face.load_glyph_default face index ;;
  _ <- Glyph.render_default glyph ;;
  Glyph.bitmap glyph.

End Toy.

(** ** Running the adapter: general facts *)
Section Facts.
Context {X : Externals} {E : Engine}.

Lemma exec_bind_call {A : Type} (c : FT_Call) (k : FT_Result c -> Prog A)
    (w : World) :
  exec (r <- call c ;; k r) w =
  mkRun (outcome (exec (k (fst (ft_call c w))) (snd (ft_call c w))))
        (world (exec (k (fst (ft_call c w))) (snd (ft_call c w))))
        (c :: trace (exec (k (fst (ft_call c w))) (snd (ft_call c w)))).
Proof. reflexivity. Qed.

Lemma exec_bind_load {A : Type} (f : FT_Field) (k : FT_FieldType f -> Prog A)
    (w : World) :
  exec (v <- load f ;; k v) w = exec (k (ft_load f w)) w.
Proof. reflexivity. Qed.

Lemma nonzero_true (x : Z) : x <> 0 -> nonzero x = true.
Proof. unfold nonzero. intros Hx. apply Z.eqb_neq in Hx. now rewrite Hx. Qed.

Lemma nonzero_false (x : Z) : x = 0 -> nonzero x = false.
Proof. intros ->. reflexivity. Qed.

(** Case analysis on the code an engine call gave, as the header's
    [if (const auto error = F(...); error)] does it. *)
Lemma nonzero_cases (x : Z) :
  (x = 0 /\ nonzero x = false) \/ (x <> 0 /\ nonzero x = true).
Proof.
  destruct (Z.eq_dec x 0) as [Hz | Hnz].
  - left. split; [assumption | now apply nonzero_false].
  - right. split; [assumption | now apply nonzero_true].
Qed.

End Facts.

Ltac by_error_code x :=
  destruct (nonzero_cases x) as [[?Hz ?Hb] | [?Hnz ?Hb]];
  rewrite ?Hb; cbn [exec outcome world trace bind];
  repeat split; try reflexivity; try congruence; try tauto.

(** ** The claims *)
Section Claims.
Context {X : Externals} {E : Engine}.

(** The two checked calls of [Library], each on its own. *)
Lemma Library_ctor_checked (w : World) :
  checked_at_once (exec Library.ctor w) FT_Init_FreeType
    (init_error w) (snd (ft_call FT_Init_FreeType w))
    (mkLibrary (init_handle w)).
Proof.
  unfold checked_at_once, init_error, init_handle.
  unfold Library.ctor, Library.create_library.
  cbn [exec bind call outcome world trace].
  destruct (ft_call FT_Init_FreeType w) as [[error lib] w'].
  cbn [fst snd]. by_error_code error.
Qed.

Lemma new_face_checked
    (w : World) (l : Library) (path : string) (index : FT_Long) :
  checked_at_once (exec (Library.new_face l path index) w)
    (FT_New_Face (_library l) path index)
    (fst (fst (ft_call (FT_New_Face (_library l) path index) w)))
    (snd (ft_call (FT_New_Face (_library l) path index) w))
    (mkFace (snd (fst (ft_call (FT_New_Face (_library l) path index) w)))).
Proof.
  unfold checked_at_once, Library.new_face. rewrite exec_bind_call.
  destruct (ft_call (FT_New_Face (_library l) path index) w)
    as [[error face] w'].
  cbn [fst snd]. by_error_code error.
Qed.

(** C1. [Face::get_char_index] makes the one engine lookup; when the lookup
    gives index zero it throws [InvalidCharCodeException] whose [code()] is
    exactly the character code asked for, and otherwise it returns the
    (nonzero) index the lookup gave. *)
Theorem get_char_index_zero_raises (f : Face) (c : CharCode) (w : World) :
  let index := fst (ft_call (FT_Get_Char_Index (_face f) c) w) in
  let r := exec (Face.get_char_index f c) w in
  trace r = [FT_Get_Char_Index (_face f) c] /\
  world r = snd (ft_call (FT_Get_Char_Index (_face f) c) w) /\
  (index = 0 ->
     outcome r = Thrown (InvalidCharCodeException c) /\
     code (InvalidCharCodeException c) = Some c) /\
  (index <> 0 -> outcome r = Returned index).
Proof.
  cbv zeta. unfold Face.get_char_index. rewrite exec_bind_call.
  by_error_code (fst (ft_call (FT_Get_Char_Index (_face f) c) w)).
Qed.

(** C2. The two-argument [set_char_size(pt, dpi)] is the four-argument
    call with width 0, height [pt * 64] (a [uint32_t] product), horizontal
    resolution 0 and vertical resolution [dpi]: the same program, hence the
    same single engine call, the same outcome and the same engine memory
    afterwards; with [dpi] left out it is the call with [dpi = 96]. *)
Theorem set_char_size_pt_is_four_argument_call
    (f : Face) (pt dpi : uint32_t) (w : World) :
  Face.set_char_size_pt f pt dpi
    = Face.set_char_size f 0 (uint32_mul pt 64) 0 dpi /\
  exec (Face.set_char_size_pt f pt dpi) w
    = exec (Face.set_char_size f 0 (uint32_mul pt 64) 0 dpi) w /\
  trace (exec (Face.set_char_size_pt f pt dpi) w)
    = [FT_Set_Char_Size (_face f) 0 (uint32_mul pt 64) 0 dpi] /\
  Face.set_char_size_pt_default f pt = Face.set_char_size_pt f pt 96 /\
  trace (exec (Face.set_char_size_pt_default f pt) w)
    = [FT_Set_Char_Size (_face f) 0 (uint32_mul pt 64) 0 96].
Proof.
  repeat split.
  - unfold Face.set_char_size_pt, Face.set_char_size.
    rewrite exec_bind_call. cbn [trace].
    now destruct (nonzero _).
  - unfold Face.set_char_size_pt_default, Face.set_char_size_pt,
      Face.set_char_size, default_dpi.
    rewrite exec_bind_call. cbn [trace].
    now destruct (nonzero _).
Qed.

(** C4. The destructors of [Face] and [Library] make their one release call
    and return normally whatever code it gave: the run ends in [Returned],
    never in [Thrown], with the engine left as the release call left it. *)
Theorem destructors_discard_release_code
    (f : Face) (l : Library) (w : World) :
  exec (Face.dtor f) w
    = mkRun (Returned tt) (snd (ft_call (FT_Done_Face (_face f)) w))
            [FT_Done_Face (_face f)] /\
  exec (Library.dtor l) w
    = mkRun (Returned tt) (snd (ft_call (FT_Done_FreeType (_library l)) w))
            [FT_Done_FreeType (_library l)] /\
  (forall e, outcome (exec (Face.dtor f) w) <> Thrown e) /\
  (forall e, outcome (exec (Library.dtor l) w) <> Thrown e).
Proof.
  assert (HF : exec (Face.dtor f) w
    = mkRun (Returned tt) (snd (ft_call (FT_Done_Face (_face f)) w))
            [FT_Done_Face (_face f)]).
  { unfold Face.dtor. rewrite exec_bind_call. now destruct (nonzero _). }
  assert (HL : exec (Library.dtor l) w
    = mkRun (Returned tt) (snd (ft_call (FT_Done_FreeType (_library l)) w))
            [FT_Done_FreeType (_library l)]).
  { unfold Library.dtor. rewrite exec_bind_call. now destruct (nonzero _). }
  repeat split; try assumption; intros e; [rewrite HF | rewrite HL];
    discriminate.
Qed.

(** C6. The generic exception built from an error code (any code, so every
    nonzero one) has as its message the engine's description of that code,
    [FT_Error_String error]; the derived exception gets its message the
    same way, from the invalid-character-code constant. *)
Theorem Exception_message_is_engine_description (error : FT_Error) :
  what (Exception error) = FT_Error_String error /\
  code (Exception error) = None /\
  (forall c : CharCode,
     what (InvalidCharCodeException c)
       = FT_Error_String FT_Err_Invalid_Character_Code).
Proof. repeat split. Qed.

(** C5. Each fallible operation other than teardown (constructing a
    [Library], [new_face], [set_char_size], [load_glyph], [render]) makes
    exactly one engine call and tests its code at once: a nonzero code ends
    the run with the generic exception of that code, a zero code with a
    normal return of the real result; the engine is left as that one call
    left it, and there is no third way out. *)
Theorem fallible_operations_check_at_once (w : World) :
  checked_at_once (exec Library.ctor w) FT_Init_FreeType
    (init_error w) (snd (ft_call FT_Init_FreeType w))
    (mkLibrary (init_handle w)) /\
  (forall (l : Library) (path : string) (index : FT_Long),
     let c := FT_New_Face (_library l) path index in
     checked_at_once (exec (Library.new_face l path index) w) c
       (fst (fst (ft_call c w))) (snd (ft_call c w))
       (mkFace (snd (fst (ft_call c w))))) /\
  (forall (f : Face) (width height horz_res vert_res : uint32_t),
     let c := FT_Set_Char_Size (_face f) width height horz_res vert_res in
     checked_at_once
       (exec (Face.set_char_size f width height horz_res vert_res) w) c
       (fst (ft_call c w)) (snd (ft_call c w)) tt) /\
  (forall (f : Face) (index flags : FT_UInt32),
     let c := FT_Load_Glyph (_face f) index flags in
     checked_at_once (exec (Face.load_glyph f index flags) w) c
       (fst (ft_call c w)) (snd (ft_call c w))
       (mkGlyph (ft_load (face_glyph (_face f)) (snd (ft_call c w))))) /\
  (forall (g : Glyph) (renderMode : FT_Render_Mode),
     let c := FT_Render_Glyph (_glyph g) renderMode in
     checked_at_once (exec (Glyph.render g renderMode) w) c
       (fst (ft_call c w)) (snd (ft_call c w)) tt).
Proof.
  split; [apply Library_ctor_checked |].
  split; [intros; apply new_face_checked |].
  unfold checked_at_once.
  split; [| split]; intros; cbv zeta.
  - unfold Face.set_char_size. rewrite exec_bind_call.
    by_error_code
      (fst (ft_call (FT_Set_Char_Size (_face f) width height horz_res vert_res) w)).
  - unfold Face.load_glyph. rewrite exec_bind_call.
    by_error_code (fst (ft_call (FT_Load_Glyph (_face f) index flags) w)).
  - unfold Glyph.render. rewrite exec_bind_call.
    by_error_code (fst (ft_call (FT_Render_Glyph (_glyph g) renderMode) w)).
Qed.

(** C7. Constructing a [Library] initialises the engine (one call of
    [FT_Init_FreeType]) and throws the generic exception of the code when
    that code is not zero; given that the engine reports success only with
    a library stored, every [Library] the constructor returns holds a
    non-null handle: a failed construction is a throw, never an object with
    a null handle. *)
Theorem Library_ctor_raises_or_holds_handle (w : World) :
  init_contract ->
  let r := exec Library.ctor w in
  trace r = [FT_Init_FreeType] /\
  (init_error w <> 0 -> outcome r = Thrown (Exception (init_error w))) /\
  (init_error w = 0 -> outcome r = Returned (mkLibrary (init_handle w))) /\
  (forall l : Library, outcome r = Returned l -> _library l <> nullptr).
Proof.
  intros Hinit r.
  destruct (Library_ctor_checked w) as (Ht & _ & Hne & Hz).
  fold r in Ht, Hne, Hz.
  repeat split; try assumption.
  intros l Hl.
  destruct (Z.eq_dec (init_error w) 0) as [Hzero | Hnonzero].
  - rewrite (Hz Hzero) in Hl. injection Hl as <-. cbn. now apply Hinit.
  - rewrite (Hne Hnonzero) in Hl. discriminate.
Qed.

(** C9. The [std::string] overload of [new_face] is the raw-path overload
    applied to the string's C string, the [std::filesystem::path] overload
    is the [std::string] overload applied to the path's string form, and
    each overload called without an index is the call with index 0: all
    end in the same single [FT_New_Face] call. *)
Theorem new_face_overloads_delegate
    (l : Library) (s : string) (p : fs_path) (i : FT_Long) (w : World) :
  Library.new_face_string l s i = Library.new_face l (c_str s) i /\
  Library.new_face_path l p i = Library.new_face_string l (path_string p) i /\
  Library.new_face_path l p i
    = Library.new_face l (c_str (path_string p)) i /\
  exec (Library.new_face_string l s i) w
    = exec (Library.new_face l (c_str s) i) w /\
  exec (Library.new_face_path l p i) w
    = exec (Library.new_face l (c_str (path_string p)) i) w /\
  trace (exec (Library.new_face_string l s i) w)
    = [FT_New_Face (_library l) (c_str s) i] /\
  trace (exec (Library.new_face_path l p i) w)
    = [FT_New_Face (_library l) (c_str (path_string p)) i] /\
  Library.new_face_default l s = Library.new_face l s 0 /\
  Library.new_face_string_default l s = Library.new_face l (c_str s) 0 /\
  Library.new_face_path_default l p
    = Library.new_face l (c_str (path_string p)) 0.
Proof.
  assert (Htrace : forall path,
            trace (exec (Library.new_face l path i) w)
            = [FT_New_Face (_library l) path i]).
  { intros path.
    destruct (new_face_checked w l path i)
      as (Ht & _). exact Ht. }
  repeat split; apply Htrace.
Qed.

(** C10. In [set_char_size(pt, dpi)] the height handed to the engine is
    [pt * 64] computed in [uint32_t], that is [(pt * 64) mod 2^32]: it is
    the product itself exactly when [pt < 2^26], and from [2^26] on it is
    a smaller number. *)
Theorem set_char_size_pt_height_wraps
    (f : Face) (pt dpi : uint32_t) (w : World) :
  0 <= pt < 2 ^ 32 ->
  trace (exec (Face.set_char_size_pt f pt dpi) w)
    = [FT_Set_Char_Size (_face f) 0 ((pt * 64) mod 2 ^ 32) 0 dpi] /\
  ((pt * 64) mod 2 ^ 32 = pt * 64 <-> pt < 2 ^ 26) /\
  (2 ^ 26 <= pt -> (pt * 64) mod 2 ^ 32 < pt * 64).
Proof.
  intros Hpt. split; [| split].
  - unfold Face.set_char_size_pt, Face.set_char_size.
    rewrite exec_bind_call. cbn [trace].
    now destruct (nonzero _).
  - split.
    + intros Heq.
      assert (0 <= (pt * 64) mod 2 ^ 32 < 2 ^ 32)
        by (apply Z.mod_pos_bound; lia).
      lia.
    + intros Hlt. apply Z.mod_small. lia.
  - intros Hge.
    assert (0 <= (pt * 64) mod 2 ^ 32 < 2 ^ 32)
      by (apply Z.mod_pos_bound; lia).
    lia.
Qed.

(** C8, as amended.  A [Face] comes from [Library::new_face] (any overload:
    one [FT_New_Face] call, a throw on a nonzero code, else the face the
    engine gave), or from the public constructor [Face(FT_Face)], which
    wraps whatever raw handle it is given without calling the engine, or
    from moving a [Face], which keeps the handle; there is no copy. *)
Theorem Face_sources (s : FaceSource) (w : World) :
  match s with
  | from_handle face =>
      exec (obtain s) w = mkRun (Returned (mkFace face)) w []
  | from_move other =>
      exec (obtain s) w = mkRun (Returned (mkFace (_face other))) w []
  | from_new_face l path index =>
      let c := FT_New_Face (_library l) path index in
      checked_at_once (exec (obtain s) w) c
        (fst (fst (ft_call c w))) (snd (ft_call c w))
        (mkFace (snd (fst (ft_call c w))))
  | from_new_face_string l path index =>
      let c := FT_New_Face (_library l) (c_str path) index in
      checked_at_once (exec (obtain s) w) c
        (fst (fst (ft_call c w))) (snd (ft_call c w))
        (mkFace (snd (fst (ft_call c w))))
  | from_new_face_path l path index =>
      let c := FT_New_Face (_library l) (c_str (path_string path)) index in
      checked_at_once (exec (obtain s) w) c
        (fst (fst (ft_call c w))) (snd (ft_call c w))
        (mkFace (snd (fst (ft_call c w))))
  end.
Proof.
  destruct s as [face | other | l path index | l path index | l path index];
    cbv zeta; try reflexivity; apply new_face_checked.
Qed.

End Claims.

(** ** Sequencing, and the checked calls one by one *)
Section Sequencing.
Context {X : Externals} {E : Engine}.

(** Running [m] and then [k]: a throw in [m] ends the run there, with no
    call of [k] made; otherwise [k] runs on from where [m] left the
    engine, and the calls of both follow one another. *)
Lemma exec_bind {A B : Type} (m : Prog A) (k : A -> Prog B) (w : World) :
  exec (bind m k) w =
  match outcome (exec m w) with
  | Returned a =>
      mkRun (outcome (exec (k a) (world (exec m w))))
            (world (exec (k a) (world (exec m w))))
            (trace (exec m w) ++ trace (exec (k a) (world (exec m w))))
  | Thrown e => mkRun (Thrown e) (world (exec m w)) (trace (exec m w))
  end.
Proof.
  revert w.
  induction m as [a | e | c k' IH | f k' IH]; intros w;
    cbn [bind exec outcome world trace app].
  - now destruct (exec (k a) w).
  - reflexivity.
  - rewrite IH. now destruct (outcome (exec (k' _) _)).
  - apply IH.
Qed.

Lemma set_char_size_checked
    (f : Face) (width height horz_res vert_res : uint32_t) (w : World) :
  checked_at_once
    (exec (Face.set_char_size f width height horz_res vert_res) w)
    (FT_Set_Char_Size (_face f) width height horz_res vert_res)
    (fst (ft_call
            (FT_Set_Char_Size (_face f) width height horz_res vert_res) w))
    (snd (ft_call
            (FT_Set_Char_Size (_face f) width height horz_res vert_res) w))
    tt.
Proof.
  unfold checked_at_once, Face.set_char_size. rewrite exec_bind_call.
  by_error_code
    (fst (ft_call
            (FT_Set_Char_Size (_face f) width height horz_res vert_res) w)).
Qed.

Lemma load_glyph_checked (f : Face) (index flags : FT_UInt32) (w : World) :
  checked_at_once (exec (Face.load_glyph f index flags) w)
    (FT_Load_Glyph (_face f) index flags)
    (fst (ft_call (FT_Load_Glyph (_face f) index flags) w))
    (snd (ft_call (FT_Load_Glyph (_face f) index flags) w))
    (mkGlyph (ft_load (face_glyph (_face f))
                (snd (ft_call (FT_Load_Glyph (_face f) index flags) w)))).
Proof.
  unfold checked_at_once, Face.load_glyph. rewrite exec_bind_call.
  by_error_code (fst (ft_call (FT_Load_Glyph (_face f) index flags) w)).
Qed.

Lemma render_checked (g : Glyph) (renderMode : FT_Render_Mode) (w : World) :
  checked_at_once (exec (Glyph.render g renderMode) w)
    (FT_Render_Glyph (_glyph g) renderMode)
    (fst (ft_call (FT_Render_Glyph (_glyph g) renderMode) w))
    (snd (ft_call (FT_Render_Glyph (_glyph g) renderMode) w))
    tt.
Proof.
  unfold checked_at_once, Glyph.render. rewrite exec_bind_call.
  by_error_code (fst (ft_call (FT_Render_Glyph (_glyph g) renderMode) w)).
Qed.

Lemma dtor_Face_run (f : Face) (w : World) :
  exec (Face.dtor f) w
  = mkRun (Returned tt) (snd (ft_call (FT_Done_Face (_face f)) w))
          [FT_Done_Face (_face f)].
Proof. unfold Face.dtor. rewrite exec_bind_call. now destruct (nonzero _). Qed.

Lemma dtor_Library_run (l : Library) (w : World) :
  exec (Library.dtor l) w
  = mkRun (Returned tt) (snd (ft_call (FT_Done_FreeType (_library l)) w))
          [FT_Done_FreeType (_library l)].
Proof.
  unfold Library.dtor. rewrite exec_bind_call. now destruct (nonzero _).
Qed.

(** A checked call that ends in a throw threw the generic exception of the
    nonzero code its engine call gave. *)
Lemma checked_throw_is_generic {A : Type} (r : Run A) (c : FT_Call)
    (error : FT_Error) (w' : World) (value : A) (e : exn) :
  checked_at_once r c error w' value ->
  outcome r = Thrown e ->
  error <> 0 /\ e = Exception error.
Proof.
  intros (_ & _ & Hne & Hz) He.
  destruct (Z.eq_dec error 0) as [Hzero | Hnonzero].
  - rewrite (Hz Hzero) in He. discriminate.
  - rewrite (Hne Hnonzero) in He. injection He as <-. now split.
Qed.

Lemma checked_zero {A : Type} (r : Run A) (c : FT_Call)
    (error : FT_Error) (w' : World) (value : A) :
  checked_at_once r c error w' value -> error = 0 ->
  r = mkRun (Returned value) w' [c].
Proof.
  intros (Ht & Hw & _ & Hz) Hzero. destruct r as [o w0 t]. cbn in *.
  now rewrite Ht, Hw, (Hz Hzero).
Qed.

Lemma checked_nonzero {A : Type} (r : Run A) (c : FT_Call)
    (error : FT_Error) (w' : World) (value : A) :
  checked_at_once r c error w' value -> error <> 0 ->
  r = mkRun (Thrown (Exception error)) w' [c].
Proof.
  intros (Ht & Hw & Hne & _) Hnonzero. destruct r as [o w0 t]. cbn in *.
  now rewrite Ht, Hw, (Hne Hnonzero).
Qed.

Lemma get_char_index_run (f : Face) (c : CharCode) (w : World) :
  exec (Face.get_char_index f c) w
  = mkRun (if nonzero (fst (ft_call (FT_Get_Char_Index (_face f) c) w))
           then Returned (fst (ft_call (FT_Get_Char_Index (_face f) c) w))
           else Thrown (InvalidCharCodeException c))
          (snd (ft_call (FT_Get_Char_Index (_face f) c) w))
          [FT_Get_Char_Index (_face f) c].
Proof.
  unfold Face.get_char_index. rewrite exec_bind_call.
  now destruct (nonzero _).
Qed.

End Sequencing.

(** ** Further properties of the header *)

(** The C string of a [std::string] *)

Lemma c_str_app_nul (s t : string) : c_str (s ++ String zero t) = c_str s.
Proof.
  induction s as [| c s IH]; cbn.
  - reflexivity.
  - destruct (Ascii.eqb c zero); [reflexivity | now rewrite IH].
Qed.

Lemma c_str_nul_free (s : string) : nul_free (c_str s) = true.
Proof.
  induction s as [| c s IH]; cbn.
  - reflexivity.
  - destruct (Ascii.eqb c zero) eqn:Hc; cbn; [reflexivity |].
    now rewrite Hc, IH.
Qed.

Lemma c_str_fixed_iff_nul_free (s : string) :
  c_str s = s <-> nul_free s = true.
Proof.
  split.
  - intros <-. apply c_str_nul_free.
  - induction s as [| c s IH]; cbn; [reflexivity |].
    destruct (Ascii.eqb c zero); cbn; [discriminate |].
    intros H. now rewrite (IH H).
Qed.

Lemma c_str_is_prefix (s : string) : exists rest, s = c_str s ++ rest.
Proof.
  induction s as [| c s [rest IH]]; cbn.
  - now exists EmptyString.
  - destruct (Ascii.eqb c zero).
    + now exists (String c s).
    + exists rest. cbn. now rewrite <- IH.
Qed.

Section Further.
Context {X : Externals} {E : Engine}.

(** Two successful loads in a row, run: each returns a view of
    [face->glyph] as it stands after its own engine call. *)
Lemma two_loads_run
    {A : Type} (f : Face) (i1 fl1 i2 fl2 : FT_UInt32) (w : World)
    (k : Glyph -> Glyph -> Prog A) :
  fst (ft_call (FT_Load_Glyph (_face f) i1 fl1) w) = 0 ->
  fst (ft_call (FT_Load_Glyph (_face f) i2 fl2)
         (snd (ft_call (FT_Load_Glyph (_face f) i1 fl1) w))) = 0 ->
  exec (g1 <- Face.load_glyph f i1 fl1 ;;
        g2 <- Face.load_glyph f i2 fl2 ;; k g1 g2) w
  = let w1 := snd (ft_call (FT_Load_Glyph (_face f) i1 fl1) w) in
    let w2 := snd (ft_call (FT_Load_Glyph (_face f) i2 fl2) w1) in
    let r := exec (k (mkGlyph (ft_load (face_glyph (_face f)) w1))
                     (mkGlyph (ft_load (face_glyph (_face f)) w2))) w2 in
    mkRun (outcome r) (world r)
          (FT_Load_Glyph (_face f) i1 fl1
           :: FT_Load_Glyph (_face f) i2 fl2 :: trace r).
Proof.
  intros H1 H2. cbv zeta.
  rewrite exec_bind.
  rewrite (checked_zero _ _ _ _ _ (load_glyph_checked f i1 fl1 w) H1).
  cbn [outcome world trace].
  rewrite exec_bind.
  rewrite (checked_zero _ _ _ _ _
             (load_glyph_checked f i2 fl2
                (snd (ft_call (FT_Load_Glyph (_face f) i1 fl1) w))) H2).
  cbn [outcome world trace app]. reflexivity.
Qed.

(** With one slot per face: whatever is done with the first view after the
    second load runs on the slot in the memory the second load left. *)
Lemma first_view_after_run
    {A : Type} (f : Face) (i1 fl1 i2 fl2 : FT_UInt32) (w : World)
    (inspect : Glyph -> Prog A) :
  single_slot_contract ->
  fst (ft_call (FT_Load_Glyph (_face f) i1 fl1) w) = 0 ->
  fst (ft_call (FT_Load_Glyph (_face f) i2 fl2)
         (snd (ft_call (FT_Load_Glyph (_face f) i1 fl1) w))) = 0 ->
  exec (first_view_after_second_load f i1 fl1 i2 fl2 inspect) w
  = let w1 := snd (ft_call (FT_Load_Glyph (_face f) i1 fl1) w) in
    let w2 := snd (ft_call (FT_Load_Glyph (_face f) i2 fl2) w1) in
    let r := exec (inspect (mkGlyph (ft_load (face_glyph (_face f)) w2))) w2 in
    mkRun (outcome r) (world r)
          (FT_Load_Glyph (_face f) i1 fl1
           :: FT_Load_Glyph (_face f) i2 fl2 :: trace r).
Proof.
  intros Hslot H1 H2. unfold first_view_after_second_load.
  rewrite (two_loads_run f i1 fl1 i2 fl2 w (fun g1 _ => inspect g1) H1 H2).
  cbv zeta. rewrite <- (Hslot (_face f) i2 fl2). reflexivity.
Qed.

(** And before the second load, on the same slot in the memory the first
    load left. *)
Lemma first_view_before_run
    {A : Type} (f : Face) (i1 fl1 i2 fl2 : FT_UInt32) (w : World)
    (inspect : Glyph -> Prog A) :
  single_slot_contract ->
  fst (ft_call (FT_Load_Glyph (_face f) i1 fl1) w) = 0 ->
  exec (first_view_before_second_load f i1 fl1 inspect) w
  = let w1 := snd (ft_call (FT_Load_Glyph (_face f) i1 fl1) w) in
    let w2 := snd (ft_call (FT_Load_Glyph (_face f) i2 fl2) w1) in
    let r := exec (inspect (mkGlyph (ft_load (face_glyph (_face f)) w2))) w1 in
    mkRun (outcome r) (world r) (FT_Load_Glyph (_face f) i1 fl1 :: trace r).
Proof.
  intros Hslot H1. unfold first_view_before_second_load.
  rewrite exec_bind.
  rewrite (checked_zero _ _ _ _ _ (load_glyph_checked f i1 fl1 w) H1).
  cbn [outcome world trace app]. cbv zeta.
  rewrite <- (Hslot (_face f) i2 fl2). reflexivity.
Qed.

(** C3. Every [Glyph] that [load_glyph] returns is a view of the face's
    one glyph slot, and so the view of a first load, looked through after
    a second load on the same face (of whatever other glyph index), shows
    the second glyph's data.  With one slot per face and both engine loads
    succeeding, where [w2] is the engine's memory as the second
    [FT_Load_Glyph] call left it and [slot] is [face->glyph]: the two loads
    are the only engine calls; both views hold [slot]; whatever is done
    with the first view runs as it does with the second view, in [w2];
    each of the four accessors of the first view returns the slot's field
    as [w2] holds it, whereas before the second load it returned the field
    as the first call left it; so where the second load changed the
    metrics in the slot, the first view no longer shows its own glyph's. *)
Theorem load_glyph_views_share_the_slot
    (f : Face) (i1 fl1 i2 fl2 : FT_UInt32) (w : World) :
  let ld1 := FT_Load_Glyph (_face f) i1 fl1 in
  let w1 := snd (ft_call ld1 w) in
  let ld2 := FT_Load_Glyph (_face f) i2 fl2 in
  let w2 := snd (ft_call ld2 w1) in
  let slot := ft_load (face_glyph (_face f)) w2 in
  single_slot_contract ->
  fst (ft_call ld1 w) = 0 ->
  fst (ft_call ld2 w1) = 0 ->
  exec (both_views f i1 fl1 i2 fl2) w
    = mkRun (Returned (mkGlyph slot, mkGlyph slot)) w2 [ld1; ld2] /\
  (forall (A : Type) (inspect : Glyph -> Prog A),
     exec (first_view_after_second_load f i1 fl1 i2 fl2 inspect) w
       = mkRun (outcome (exec (inspect (mkGlyph slot)) w2))
               (world (exec (inspect (mkGlyph slot)) w2))
               (ld1 :: ld2 :: trace (exec (inspect (mkGlyph slot)) w2)) /\
     exec (first_view_after_second_load f i1 fl1 i2 fl2 inspect) w
       = exec (second_view_after_second_load f i1 fl1 i2 fl2 inspect) w) /\
  exec (first_view_after_second_load f i1 fl1 i2 fl2 Glyph.metrics) w
    = mkRun (Returned (ft_load (slot_metrics slot) w2)) w2 [ld1; ld2] /\
  exec (first_view_after_second_load f i1 fl1 i2 fl2 Glyph.bitmap) w
    = mkRun (Returned (ft_load (slot_bitmap slot) w2)) w2 [ld1; ld2] /\
  exec (first_view_after_second_load f i1 fl1 i2 fl2 Glyph.bitmap_left) w
    = mkRun (Returned (ft_load (slot_bitmap_left slot) w2)) w2 [ld1; ld2] /\
  exec (first_view_after_second_load f i1 fl1 i2 fl2 Glyph.bitmap_top) w
    = mkRun (Returned (ft_load (slot_bitmap_top slot) w2)) w2 [ld1; ld2] /\
  exec (first_view_before_second_load f i1 fl1 Glyph.metrics) w
    = mkRun (Returned (ft_load (slot_metrics slot) w1)) w1 [ld1] /\
  exec (first_view_before_second_load f i1 fl1 Glyph.bitmap) w
    = mkRun (Returned (ft_load (slot_bitmap slot) w1)) w1 [ld1] /\
  exec (first_view_before_second_load f i1 fl1 Glyph.bitmap_left) w
    = mkRun (Returned (ft_load (slot_bitmap_left slot) w1)) w1 [ld1] /\
  exec (first_view_before_second_load f i1 fl1 Glyph.bitmap_top) w
    = mkRun (Returned (ft_load (slot_bitmap_top slot) w1)) w1 [ld1] /\
  (ft_load (slot_metrics slot) w2 <> ft_load (slot_metrics slot) w1 ->
   outcome (exec (first_view_after_second_load f i1 fl1 i2 fl2 Glyph.metrics)
                 w)
   <> outcome (exec (first_view_before_second_load f i1 fl1 Glyph.metrics)
                    w)).
Proof.
  cbv zeta. intros Hslot H1 H2.
  split; [| split; [| repeat split]].
  - unfold both_views.
    rewrite (two_loads_run f i1 fl1 i2 fl2 w (fun g1 g2 => Ret (g1, g2)) H1 H2).
    cbv zeta. rewrite <- (Hslot (_face f) i2 fl2). reflexivity.
  - intros A inspect. split.
    + exact (first_view_after_run f i1 fl1 i2 fl2 w inspect Hslot H1 H2).
    + rewrite (first_view_after_run f i1 fl1 i2 fl2 w inspect Hslot H1 H2).
      unfold second_view_after_second_load.
      now rewrite (two_loads_run f i1 fl1 i2 fl2 w (fun _ g2 => inspect g2)
                     H1 H2).
  - exact (first_view_after_run f i1 fl1 i2 fl2 w Glyph.metrics Hslot H1 H2).
  - exact (first_view_after_run f i1 fl1 i2 fl2 w Glyph.bitmap Hslot H1 H2).
  - exact (first_view_after_run f i1 fl1 i2 fl2 w Glyph.bitmap_left
             Hslot H1 H2).
  - exact (first_view_after_run f i1 fl1 i2 fl2 w Glyph.bitmap_top
             Hslot H1 H2).
  - exact (first_view_before_run f i1 fl1 i2 fl2 w Glyph.metrics Hslot H1).
  - exact (first_view_before_run f i1 fl1 i2 fl2 w Glyph.bitmap Hslot H1).
  - exact (first_view_before_run f i1 fl1 i2 fl2 w Glyph.bitmap_left
             Hslot H1).
  - exact (first_view_before_run f i1 fl1 i2 fl2 w Glyph.bitmap_top
             Hslot H1).
  - rewrite (first_view_after_run f i1 fl1 i2 fl2 w Glyph.metrics Hslot H1 H2),
      (first_view_before_run f i1 fl1 i2 fl2 w Glyph.metrics Hslot H1).
    cbn. intros Hdiff Heq. apply Hdiff. now injection Heq.
Qed.

(** X1. The defaulted move constructor of [Face] copies the handle and
    leaves it in the object moved from, so when the new object and then
    the old one are destroyed, [FT_Done_Face] is called twice with the
    same handle; both destructors return normally whatever the engine
    answers to the second release. *)
Theorem moved_Face_is_released_twice (f : Face) (w : World) :
  let release := FT_Done_Face (_face f) in
  let r := exec (_ <- Face.dtor (Face.move f) ;; Face.dtor f) w in
  _face (Face.move f) = _face f /\
  outcome r = Returned tt /\
  trace r = [release; release] /\
  world r = snd (ft_call release (snd (ft_call release w))).
Proof.
  cbv zeta. rewrite exec_bind, !dtor_Face_run. cbn. repeat split.
Qed.

(** X2. The same for [Library]: after a move both objects hold the
    library handle, and destroying both calls [FT_Done_FreeType] twice
    with it, without a throw. *)
Theorem moved_Library_is_released_twice (l : Library) (w : World) :
  let release := FT_Done_FreeType (_library l) in
  let r := exec (_ <- Library.dtor (Library.move l) ;; Library.dtor l) w in
  _library (Library.move l) = _library l /\
  outcome r = Returned tt /\
  trace r = [release; release] /\
  world r = snd (ft_call release (snd (ft_call release w))).
Proof.
  cbv zeta. rewrite exec_bind, !dtor_Library_run. cbn. repeat split.
Qed.

(** X3. The height [set_char_size(pt, dpi)] hands to the engine is
    [64 * (pt mod 2^26)]: always a whole number of points, always a
    [uint32_t] value, and dependent on [pt] only modulo [2^26], so that
    [pt] and [pt + 2^26] make the same engine call. *)
Theorem set_char_size_pt_height_is_periodic
    (f : Face) (pt dpi : uint32_t) (w : World) :
  trace (exec (Face.set_char_size_pt f pt dpi) w)
    = [FT_Set_Char_Size (_face f) 0 (64 * (pt mod 2 ^ 26)) 0 dpi] /\
  0 <= 64 * (pt mod 2 ^ 26) < 2 ^ 32 /\
  Face.set_char_size_pt f (pt + 2 ^ 26) dpi = Face.set_char_size_pt f pt dpi /\
  Face.set_char_size_pt f (pt mod 2 ^ 26) dpi = Face.set_char_size_pt f pt dpi.
Proof.
  assert (Hmul : forall n, uint32_mul n 64 = 64 * (n mod 2 ^ 26)).
  { intros n. unfold uint32_mul, to_uint32, uint32_max_plus_1.
    change (2 ^ 32) with (2 ^ 26 * 64).
    rewrite Z.mul_mod_distr_r by lia. lia. }
  assert (Hrange : 0 <= pt mod 2 ^ 26 < 2 ^ 26)
    by (apply Z.mod_pos_bound; lia).
  split; [| split; [| split]].
  - destruct (set_char_size_checked f 0 (uint32_mul pt 64) 0 dpi w)
      as (Ht & _).
    unfold Face.set_char_size_pt. rewrite Ht, Hmul. reflexivity.
  - lia.
  - unfold Face.set_char_size_pt. rewrite !Hmul.
    replace ((pt + 2 ^ 26) mod 2 ^ 26) with (pt mod 2 ^ 26);
      [reflexivity |].
    rewrite <- (Z.mul_1_l (2 ^ 26)) at 2.
    now rewrite Z.mod_add by lia.
  - unfold Face.set_char_size_pt. rewrite !Hmul.
    now rewrite Z.mod_mod by lia.
Qed.

(** X4. The [std::string] overload of [new_face] opens the file named by
    the characters before the first NUL of the string: whatever follows a
    NUL is ignored, a string without NUL is passed whole, and the file
    name in the engine call never holds a NUL. *)
Theorem new_face_string_stops_at_nul
    (l : Library) (s t : string) (i : FT_Long) (w : World) :
  Library.new_face_string l (s ++ String zero t) i
    = Library.new_face_string l s i /\
  (nul_free s = true ->
     Library.new_face_string l s i = Library.new_face l s i) /\
  (exists name : string,
     trace (exec (Library.new_face_string l s i) w)
       = [FT_New_Face (_library l) name i] /\
     nul_free name = true /\
     exists rest, s = name ++ rest).
Proof.
  split; [| split].
  - unfold Library.new_face_string. now rewrite c_str_app_nul.
  - intros Hfree. unfold Library.new_face_string.
    now rewrite (proj2 (c_str_fixed_iff_nul_free s) Hfree).
  - exists (c_str s). split; [| split].
    + destruct (new_face_checked w l (c_str s) i) as (Ht & _). exact Ht.
    + apply c_str_nul_free.
    + apply c_str_is_prefix.
Qed.

(** X5. Which operation throws what.  The constructor of [Library], the
    three [new_face] overloads, both [set_char_size] overloads,
    [load_glyph] and [render] throw nothing but the generic [Exception] of
    a nonzero engine code, never [InvalidCharCodeException];
    [get_char_index] throws nothing but [InvalidCharCodeException] with
    the code it was asked for, and the message of that exception is the
    same for every code. *)
Theorem only_get_char_index_throws_InvalidCharCode (w : World) (e : exn) :
  (outcome (exec Library.ctor w) = Thrown e -> generic_failure e) /\
  (forall l path i,
     outcome (exec (Library.new_face l path i) w) = Thrown e ->
     generic_failure e) /\
  (forall l path i,
     outcome (exec (Library.new_face_string l path i) w) = Thrown e ->
     generic_failure e) /\
  (forall l path i,
     outcome (exec (Library.new_face_path l path i) w) = Thrown e ->
     generic_failure e) /\
  (forall f width height horz_res vert_res,
     outcome (exec (Face.set_char_size f width height horz_res vert_res) w)
       = Thrown e ->
     generic_failure e) /\
  (forall f pt dpi,
     outcome (exec (Face.set_char_size_pt f pt dpi) w) = Thrown e ->
     generic_failure e) /\
  (forall f index flags,
     outcome (exec (Face.load_glyph f index flags) w) = Thrown e ->
     generic_failure e) /\
  (forall g renderMode,
     outcome (exec (Glyph.render g renderMode) w) = Thrown e ->
     generic_failure e) /\
  (generic_failure e -> code e = None) /\
  (forall f c,
     outcome (exec (Face.get_char_index f c) w) = Thrown e ->
     e = InvalidCharCodeException c /\ code e = Some c /\
     what e = FT_Error_String FT_Err_Invalid_Character_Code).
Proof.
  assert (Hgen : forall (A : Type) (r : Run A) c error w' value,
            checked_at_once r c error w' value ->
            outcome r = Thrown e -> generic_failure e).
  { intros A r c error w' value Hchecked He. exists error.
    exact (checked_throw_is_generic _ _ _ _ _ _ Hchecked He). }
  repeat match goal with |- _ /\ _ => split end.
  - apply (Hgen _ _ _ _ _ _ (Library_ctor_checked w)).
  - intros l path i. apply (Hgen _ _ _ _ _ _ (new_face_checked w l path i)).
  - intros l path i.
    apply (Hgen _ _ _ _ _ _ (new_face_checked w l (c_str path) i)).
  - intros l path i.
    apply (Hgen _ _ _ _ _ _
             (new_face_checked w l (c_str (path_string path)) i)).
  - intros f width height horz_res vert_res.
    apply (Hgen _ _ _ _ _ _
             (set_char_size_checked f width height horz_res vert_res w)).
  - intros f pt dpi.
    apply (Hgen _ _ _ _ _ _
             (set_char_size_checked f 0 (uint32_mul pt 64) 0 dpi w)).
  - intros f index flags.
    apply (Hgen _ _ _ _ _ _ (load_glyph_checked f index flags w)).
  - intros g renderMode.
    apply (Hgen _ _ _ _ _ _ (render_checked g renderMode w)).
  - intros (error & _ & ->). reflexivity.
  - intros f c. rewrite get_char_index_run. cbn [outcome].
    destruct (nonzero _); intros He; [discriminate |].
    injection He as <-. repeat split.
Qed.

(** X6. Looking a character up and loading what the lookup returns: when
    the character is not mapped the run ends in [InvalidCharCodeException]
    after the lookup alone, so [FT_Load_Glyph] is never called with glyph
    index 0; when it is mapped, the index loaded is the one looked up. *)
Theorem lookup_then_load_never_loads_glyph_zero
    (f : Face) (c : CharCode) (flags : FT_UInt32) (w : World) :
  let look := FT_Get_Char_Index (_face f) c in
  let index := fst (ft_call look w) in
  let r := exec (i <- Face.get_char_index f c ;; Face.load_glyph f i flags) w
  in
  (index = 0 ->
     outcome r = Thrown (InvalidCharCodeException c) /\
     trace r = [look] /\ world r = snd (ft_call look w)) /\
  (index <> 0 -> trace r = [look; FT_Load_Glyph (_face f) index flags]) /\
  (forall face i fl, In (FT_Load_Glyph face i fl) (trace r) -> i <> 0).
Proof.
  cbv zeta. rewrite exec_bind, get_char_index_run.
  cbn [outcome world trace].
  destruct (nonzero_cases (fst (ft_call (FT_Get_Char_Index (_face f) c) w)))
    as [[Hz Hb] | [Hnz Hb]]; rewrite Hb; cbn [outcome world trace app].
  - split; [now intros _ | split; [intros Hne; now elim Hne |]].
    intros face i fl [Heq | []]. discriminate Heq.
  - destruct (load_glyph_checked f
                (fst (ft_call (FT_Get_Char_Index (_face f) c) w)) flags
                (snd (ft_call (FT_Get_Char_Index (_face f) c) w)))
      as (Ht & _).
    rewrite Ht. cbn [app].
    split; [intros Hz; now elim Hnz | split; [reflexivity |]].
    intros face i fl [Heq | [Heq | []]]; [discriminate Heq |].
    injection Heq as _ <- _. exact Hnz.
Qed.

(** X7. Loading a glyph and rendering the view returned: a failed load
    throws before any rendering; after a successful load the engine is
    asked to render exactly the slot [face->glyph] names after the load,
    and the code of the rendering decides between a throw and a return. *)
Theorem load_then_render_renders_the_face_slot
    (f : Face) (index flags : FT_UInt32) (mode : FT_Render_Mode) (w : World) :
  let ld := FT_Load_Glyph (_face f) index flags in
  let w1 := snd (ft_call ld w) in
  let rd := FT_Render_Glyph (ft_load (face_glyph (_face f)) w1) mode in
  let r := exec (g <- Face.load_glyph f index flags ;; Glyph.render g mode) w
  in
  (fst (ft_call ld w) <> 0 ->
     r = mkRun (Thrown (Exception (fst (ft_call ld w)))) w1 [ld]) /\
  (fst (ft_call ld w) = 0 ->
     trace r = [ld; rd] /\ world r = snd (ft_call rd w1) /\
     (fst (ft_call rd w1) <> 0 ->
        outcome r = Thrown (Exception (fst (ft_call rd w1)))) /\
     (fst (ft_call rd w1) = 0 -> outcome r = Returned tt)).
Proof.
  cbv zeta. rewrite exec_bind.
  pose proof (load_glyph_checked f index flags w) as Hload.
  split; intros Hcode.
  - now rewrite (checked_nonzero _ _ _ _ _ Hload Hcode).
  - rewrite (checked_zero _ _ _ _ _ Hload Hcode). cbn [outcome world trace].
    destruct (render_checked
                (mkGlyph (ft_load (face_glyph (_face f))
                            (snd (ft_call (FT_Load_Glyph (_face f) index flags)
                                    w))))
                mode
                (snd (ft_call (FT_Load_Glyph (_face f) index flags) w)))
      as (Ht & Hw & Hne & Hz).
    cbn [_glyph] in Ht, Hw, Hne, Hz.
    rewrite Ht, Hw. cbn [app]. repeat split; assumption.
Qed.

(** X8. An owner destroyed after it was built releases the handle it
    acquired: [Library()] followed by [~Library()] calls
    [FT_Done_FreeType] with the handle [FT_Init_FreeType] stored, and
    [new_face] followed by [~Face()] calls [FT_Done_Face] with the handle
    [FT_New_Face] stored; when the acquisition fails it throws, no object
    exists and no release call is made. *)
Theorem owners_release_what_they_acquired (w : World) :
  (let r := exec (lib <- Library.ctor ;; Library.dtor lib) w in
   (init_error w = 0 ->
      outcome r = Returned tt /\
      trace r = [FT_Init_FreeType; FT_Done_FreeType (init_handle w)]) /\
   (init_error w <> 0 ->
      outcome r = Thrown (Exception (init_error w)) /\
      trace r = [FT_Init_FreeType])) /\
  (forall (l : Library) (path : string) (i : FT_Long),
     let c := FT_New_Face (_library l) path i in
     let r := exec (face <- Library.new_face l path i ;; Face.dtor face) w in
     (fst (fst (ft_call c w)) = 0 ->
        outcome r = Returned tt /\
        trace r = [c; FT_Done_Face (snd (fst (ft_call c w)))]) /\
     (fst (fst (ft_call c w)) <> 0 ->
        outcome r = Thrown (Exception (fst (fst (ft_call c w)))) /\
        trace r = [c])).
Proof.
  split; [| intros l path i]; cbv zeta; rewrite exec_bind.
  - pose proof (Library_ctor_checked w) as Hctor.
    split; intros Hcode.
    + rewrite (checked_zero _ _ _ _ _ Hctor Hcode). cbn [outcome world trace].
      rewrite dtor_Library_run. now split.
    + rewrite (checked_nonzero _ _ _ _ _ Hctor Hcode). now split.
  - pose proof (new_face_checked w l path i) as Hnew.
    split; intros Hcode.
    + rewrite (checked_zero _ _ _ _ _ Hnew Hcode). cbn [outcome world trace].
      rewrite dtor_Face_run. now split.
    + rewrite (checked_nonzero _ _ _ _ _ Hnew Hcode). now split.
Qed.

(** X9. A [Library] just built opens faces with its own handle: after a
    successful [Library()], [new_face] calls [FT_New_Face] with the handle
    [FT_Init_FreeType] stored; after a failed one nothing is opened. *)
Theorem built_Library_opens_faces_with_its_handle
    (path : string) (i : FT_Long) (w : World) :
  let r := exec (lib <- Library.ctor ;; Library.new_face lib path i) w in
  (init_error w = 0 ->
     trace r = [FT_Init_FreeType; FT_New_Face (init_handle w) path i]) /\
  (init_error w <> 0 ->
     r = mkRun (Thrown (Exception (init_error w)))
               (snd (ft_call FT_Init_FreeType w)) [FT_Init_FreeType]).
Proof.
  cbv zeta. rewrite exec_bind.
  pose proof (Library_ctor_checked w) as Hctor.
  split; intros Hcode.
  - rewrite (checked_zero _ _ _ _ _ Hctor Hcode). cbn [outcome world trace].
    destruct (new_face_checked (snd (ft_call FT_Init_FreeType w))
                (mkLibrary (init_handle w)) path i) as (Ht & _).
    now rewrite Ht.
  - now rewrite (checked_nonzero _ _ _ _ _ Hctor Hcode).
Qed.

(** X11. A [Glyph] moved from stays a view of the same slot: rendering
    through the new view is the same engine call as rendering through the
    old one, and what it rendered is what the old view then shows. *)
Theorem moved_Glyph_views_the_same_slot
    (g : Glyph) (mode : FT_Render_Mode) (w : World) :
  let rd := FT_Render_Glyph (_glyph g) mode in
  _glyph (Glyph.move g) = _glyph g /\
  exec (Glyph.render (Glyph.move g) mode) w = exec (Glyph.render g mode) w /\
  trace (exec (Glyph.render (Glyph.move g) mode) w) = [rd] /\
  (fst (ft_call rd w) = 0 ->
     exec (_ <- Glyph.render (Glyph.move g) mode ;; Glyph.bitmap g) w
     = mkRun (Returned (ft_load (slot_bitmap (_glyph g)) (snd (ft_call rd w))))
             (snd (ft_call rd w)) [rd]).
Proof.
  cbv zeta. pose proof (render_checked (Glyph.move g) mode w) as Hrender.
  cbn [Glyph.move _glyph] in Hrender.
  split; [reflexivity | split; [reflexivity | split]].
  - destruct Hrender as (Ht & _). exact Ht.
  - intros Hcode. rewrite exec_bind.
    now rewrite (checked_zero _ _ _ _ _ Hrender Hcode).
Qed.

End Further.

(** ** The adapter on the small engine *)

Example c_str_stops_at_nul :
  c_str ("font.ttf" ++ String zero "tail") = "font.ttf".
Proof. reflexivity. Qed.

Example c_str_without_nul : c_str "DejaVuSans.ttf" = "DejaVuSans.ttf".
Proof. reflexivity. Qed.

#[local] Existing Instance Toy.externals.
#[local] Existing Instance Toy.engine.

Lemma Toy_init_contract : @init_contract Toy.externals Toy.engine.
Proof.
  intros w. unfold init_error, init_handle. cbn.
  destruct (Toy.can_allocate w); cbn; intros H; discriminate.
Qed.

Lemma Toy_single_slot_contract :
  @single_slot_contract Toy.externals Toy.engine.
Proof. intros face index flags w. reflexivity. Qed.

(** The scenario of the specification, run: six engine calls, the glyph of
    'A' rendered, 12 pt handed over as 768 units at 96 dpi. *)
Example scenario_runs :
  exec (E := Toy.engine) Toy.scenario Toy.fresh
  = mkRun (E := Toy.engine) (Returned (36, 36))
          (Toy.mkWorld true true true (0, 768, 0, 96) 36 true)
          [FT_Init_FreeType;
           FT_New_Face Toy.library_handle Toy.font_file 0;
           FT_Set_Char_Size Toy.face_handle 0 768 0 96;
           FT_Get_Char_Index Toy.face_handle 65;
           FT_Load_Glyph Toy.face_handle 36 0;
           FT_Render_Glyph Toy.slot_handle FT_RENDER_MODE_NORMAL].
Proof. vm_compute. reflexivity. Qed.

(** C1 on the small engine: a code outside the character map, and 'A'. *)
Lemma get_char_index_zero_raises_witness :
  outcome (exec (E := Toy.engine)
                (Face.get_char_index Toy.the_face 0x4E2D) Toy.opened)
    = Thrown (InvalidCharCodeException 0x4E2D) /\
  outcome (exec (E := Toy.engine)
                (Face.get_char_index Toy.the_face 65) Toy.opened)
    = Returned 36.
Proof.
  split.
  - destruct (get_char_index_zero_raises (E := Toy.engine)
                Toy.the_face 0x4E2D Toy.opened) as (_ & _ & Hzero & _).
    apply Hzero. reflexivity.
  - destruct (get_char_index_zero_raises (E := Toy.engine)
                Toy.the_face 65 Toy.opened) as (_ & _ & _ & Hnonzero).
    apply Hnonzero. vm_compute. discriminate.
Defined.

(** C4 on the small engine: releasing handles the engine does not know
    gives nonzero codes, and both destructors return all the same. *)
Lemma destructors_discard_release_code_witness :
  fst (ft_call (Engine := Toy.engine) (FT_Done_Face nullptr) Toy.fresh)
    = 0x23 /\
  exec (E := Toy.engine) (Face.dtor (mkFace nullptr)) Toy.fresh
    = mkRun (E := Toy.engine) (Returned tt) Toy.fresh [FT_Done_Face nullptr] /\
  exec (E := Toy.engine) (Library.dtor (mkLibrary nullptr)) Toy.fresh
    = mkRun (E := Toy.engine) (Returned tt) Toy.fresh [FT_Done_FreeType nullptr].
Proof.
  split; [reflexivity |].
  destruct (destructors_discard_release_code (E := Toy.engine)
              (mkFace nullptr) (mkLibrary nullptr) Toy.fresh)
    as (HF & HL & _ & _).
  split; [exact HF | exact HL].
Defined.

(** C5 on the small engine: a missing file, and a size that is set. *)
Lemma fallible_operations_check_at_once_witness :
  outcome (exec (E := Toy.engine)
                (Library.new_face Toy.the_library "missing.ttf" 0) Toy.opened)
    = Thrown (Exception 0x01) /\
  outcome (exec (E := Toy.engine)
                (Face.set_char_size Toy.the_face 0 768 0 96) Toy.opened)
    = Returned tt.
Proof.
  destruct (fallible_operations_check_at_once (E := Toy.engine) Toy.opened)
    as (_ & Hnew & Hsize & _ & _).
  split.
  - destruct (Hnew Toy.the_library "missing.ttf" 0) as (_ & _ & Hraise & _).
    apply Hraise. vm_compute. discriminate.
  - destruct (Hsize Toy.the_face 0 768 0 96) as (_ & _ & _ & Hreturn).
    apply Hreturn. reflexivity.
Defined.

(** C7 on the small engine: with memory the library is built around a
    handle that is not null; without, construction throws. *)
Lemma Library_ctor_raises_or_holds_handle_witness :
  outcome (exec (E := Toy.engine) Library.ctor Toy.fresh)
    = Returned Toy.the_library /\
  _library Toy.the_library <> nullptr /\
  outcome (exec (E := Toy.engine) Library.ctor Toy.exhausted)
    = Thrown (Exception 0x40).
Proof.
  destruct (Library_ctor_raises_or_holds_handle (E := Toy.engine)
              Toy.fresh Toy_init_contract) as (_ & _ & Hok & Hnonnull).
  destruct (Library_ctor_raises_or_holds_handle (E := Toy.engine)
              Toy.exhausted Toy_init_contract) as (_ & Hfail & _ & _).
  split; [apply Hok; reflexivity |].
  split; [apply Hnonnull; apply Hok; reflexivity |].
  apply Hfail. vm_compute. discriminate.
Defined.

(** C8 as first stated fails: the public constructor makes a [Face] from
    any number, with the library not even initialised and no engine call. *)
Lemma Face_constructible_from_raw_handle :
  ~ @only_through_new_face Toy.externals Toy.engine.
Proof.
  intros Honly.
  specialize (Honly (from_handle 7) Toy.fresh (mkFace 7) eq_refl eq_refl).
  cbn in Honly. discriminate Honly.
Qed.

(** C10 on the small engine: [2^26] points reach the engine as height 0. *)
Lemma set_char_size_pt_height_wraps_witness :
  trace (exec (E := Toy.engine)
              (Face.set_char_size_pt Toy.the_face (2 ^ 26) 96) Toy.opened)
    = [FT_Set_Char_Size Toy.face_handle 0 0 0 96] /\
  (2 ^ 26 * 64) mod 2 ^ 32 < 2 ^ 26 * 64.
Proof.
  destruct (set_char_size_pt_height_wraps (E := Toy.engine)
              Toy.the_face (2 ^ 26) 96 Toy.opened ltac:(lia))
    as (Htrace & _ & Hless).
  split; [exact Htrace | apply Hless; lia].
Defined.

(** X1 on the small engine: the second release of the face handle is
    refused by the engine (invalid face handle), and nothing is thrown. *)
Lemma moved_Face_is_released_twice_witness :
  exec (E := Toy.engine)
       (_ <- Face.dtor (Face.move Toy.the_face) ;; Face.dtor Toy.the_face)
       Toy.opened
    = mkRun (E := Toy.engine) (Returned tt)
            (Toy.mkWorld true true false (0, 0, 0, 0) 0 false)
            [FT_Done_Face Toy.face_handle; FT_Done_Face Toy.face_handle] /\
  fst (ft_call (Engine := Toy.engine) (FT_Done_Face Toy.face_handle)
         (snd (ft_call (Engine := Toy.engine) (FT_Done_Face Toy.face_handle)
                 Toy.opened)))
    = 0x23.
Proof.
  destruct (moved_Face_is_released_twice (E := Toy.engine)
              Toy.the_face Toy.opened) as (_ & Ho & Ht & Hw).
  split; [| reflexivity].
  destruct (exec _ _) as [o w0 t]. cbn in Ho, Ht, Hw.
  rewrite Ho, Ht, Hw. reflexivity.
Defined.

(** X2 on the small engine: the second shutdown is refused (invalid library
    handle), and nothing is thrown. *)
Lemma moved_Library_is_released_twice_witness :
  trace (exec (E := Toy.engine)
              (_ <- Library.dtor (Library.move Toy.the_library) ;;
               Library.dtor Toy.the_library)
              Toy.opened)
    = [FT_Done_FreeType Toy.library_handle;
       FT_Done_FreeType Toy.library_handle] /\
  fst (ft_call (Engine := Toy.engine) (FT_Done_FreeType Toy.library_handle)
         (snd (ft_call (Engine := Toy.engine)
                 (FT_Done_FreeType Toy.library_handle) Toy.opened)))
    = 0x21.
Proof.
  destruct (moved_Library_is_released_twice (E := Toy.engine)
              Toy.the_library Toy.opened) as (_ & _ & Ht & _).
  split; [exact Ht | reflexivity].
Defined.

(** X3 on the small engine: [2^26 + 12] points are set as 12 points. *)
Lemma set_char_size_pt_height_is_periodic_witness :
  trace (exec (E := Toy.engine)
              (Face.set_char_size_pt Toy.the_face (2 ^ 26 + 12) 96) Toy.opened)
    = [FT_Set_Char_Size Toy.face_handle 0 768 0 96].
Proof.
  destruct (set_char_size_pt_height_is_periodic (E := Toy.engine)
              Toy.the_face (2 ^ 26 + 12) 96 Toy.opened) as (Ht & _).
  exact Ht.
Defined.

(** X4 on the small engine: a font name followed by a NUL and more opens
    the font. *)
Lemma new_face_string_stops_at_nul_witness :
  outcome (exec (E := Toy.engine)
                (Library.new_face_string Toy.the_library
                   (Toy.font_file ++ String zero ".bak") 0)
                Toy.opened)
    = Returned Toy.the_face.
Proof.
  destruct (new_face_string_stops_at_nul (E := Toy.engine)
              Toy.the_library Toy.font_file ".bak" 0 Toy.opened)
    as (Hcut & _ & _).
  rewrite Hcut. reflexivity.
Defined.

(** X5 on the small engine: a missing file gives a generic failure, which
    has no code. *)
Lemma only_get_char_index_throws_InvalidCharCode_witness :
  generic_failure (Exception 0x01) /\ code (Exception 0x01) = None.
Proof.
  destruct (only_get_char_index_throws_InvalidCharCode (E := Toy.engine)
              Toy.opened (Exception 0x01))
    as (_ & Hnew & _ & _ & _ & _ & _ & _ & Hcode & _).
  assert (Hgen : generic_failure (Exception 0x01))
    by (apply (Hnew Toy.the_library "missing.ttf" 0); reflexivity).
  split; [exact Hgen | exact (Hcode Hgen)].
Defined.

(** X6 on the small engine: a character outside the map, and 'A'. *)
Lemma lookup_then_load_never_loads_glyph_zero_witness :
  trace (exec (E := Toy.engine)
              (i <- Face.get_char_index Toy.the_face 0x4E2D ;;
               Face.load_glyph Toy.the_face i 0)
              Toy.opened)
    = [FT_Get_Char_Index Toy.face_handle 0x4E2D] /\
  trace (exec (E := Toy.engine)
              (i <- Face.get_char_index Toy.the_face 65 ;;
               Face.load_glyph Toy.the_face i 0)
              Toy.opened)
    = [FT_Get_Char_Index Toy.face_handle 65;
       FT_Load_Glyph Toy.face_handle 36 0].
Proof.
  split.
  - destruct (lookup_then_load_never_loads_glyph_zero (E := Toy.engine)
                Toy.the_face 0x4E2D 0 Toy.opened) as (Hzero & _ & _).
    apply Hzero. reflexivity.
  - destruct (lookup_then_load_never_loads_glyph_zero (E := Toy.engine)
                Toy.the_face 65 0 Toy.opened) as (_ & Hmapped & _).
    apply Hmapped. vm_compute. discriminate.
Defined.

(** X7 on the small engine: glyph 36 loaded and rendered, and a glyph index
    out of range. *)
Lemma load_then_render_renders_the_face_slot_witness :
  trace (exec (E := Toy.engine)
              (g <- Face.load_glyph Toy.the_face 36 0 ;;
               Glyph.render g FT_RENDER_MODE_NORMAL)
              Toy.opened)
    = [FT_Load_Glyph Toy.face_handle 36 0;
       FT_Render_Glyph Toy.slot_handle FT_RENDER_MODE_NORMAL] /\
  exec (E := Toy.engine)
       (g <- Face.load_glyph Toy.the_face 100 0 ;;
        Glyph.render g FT_RENDER_MODE_NORMAL)
       Toy.opened
    = mkRun (E := Toy.engine) (Thrown (Exception 0x10)) Toy.opened
            [FT_Load_Glyph Toy.face_handle 100 0].
Proof.
  split.
  - destruct (load_then_render_renders_the_face_slot (E := Toy.engine)
                Toy.the_face 36 0 FT_RENDER_MODE_NORMAL Toy.opened)
      as (_ & Hloaded).
    destruct (Hloaded eq_refl) as (Ht & _). exact Ht.
  - destruct (load_then_render_renders_the_face_slot (E := Toy.engine)
                Toy.the_face 100 0 FT_RENDER_MODE_NORMAL Toy.opened)
      as (Hfailed & _).
    apply Hfailed. vm_compute. discriminate.
Defined.

(** X8 on the small engine: with memory the library is shut down with the
    handle it was given; without memory nothing is shut down. *)
Lemma owners_release_what_they_acquired_witness :
  trace (exec (E := Toy.engine) (lib <- Library.ctor ;; Library.dtor lib)
              Toy.fresh)
    = [FT_Init_FreeType; FT_Done_FreeType Toy.library_handle] /\
  trace (exec (E := Toy.engine) (lib <- Library.ctor ;; Library.dtor lib)
              Toy.exhausted)
    = [FT_Init_FreeType].
Proof.
  split.
  - destruct (owners_release_what_they_acquired (E := Toy.engine) Toy.fresh)
      as ((Hok & _) & _).
    destruct (Hok eq_refl) as (_ & Ht). exact Ht.
  - destruct (owners_release_what_they_acquired (E := Toy.engine)
                Toy.exhausted) as ((_ & Hfail) & _).
    apply Hfail. vm_compute. discriminate.
Defined.

(** X9 on the small engine: the font is opened with the library's handle. *)
Lemma built_Library_opens_faces_with_its_handle_witness :
  trace (exec (E := Toy.engine)
              (lib <- Library.ctor ;; Library.new_face lib Toy.font_file 0)
              Toy.fresh)
    = [FT_Init_FreeType; FT_New_Face Toy.library_handle Toy.font_file 0].
Proof.
  destruct (built_Library_opens_faces_with_its_handle (E := Toy.engine)
              Toy.font_file 0 Toy.fresh) as (Hok & _).
  apply Hok. reflexivity.
Defined.

(** X11 on the small engine: glyph 36 rendered through a moved view shows
    its bitmap through the first one. *)
Lemma moved_Glyph_views_the_same_slot_witness :
  outcome (exec (E := Toy.engine)
                (_ <- Glyph.render (Glyph.move (mkGlyph Toy.slot_handle))
                        FT_RENDER_MODE_NORMAL ;;
                 Glyph.bitmap (mkGlyph Toy.slot_handle))
                (Toy.mkWorld true true true (0, 0, 0, 0) 36 false))
    = Returned (36, 36).
Proof.
  destruct (moved_Glyph_views_the_same_slot (E := Toy.engine)
              (mkGlyph Toy.slot_handle) FT_RENDER_MODE_NORMAL
              (Toy.mkWorld true true true (0, 0, 0, 0) 36 false))
    as (_ & _ & _ & Hshown).
  rewrite (Hshown eq_refl). reflexivity.
Defined.

(** C3 on the small engine: glyph 36 then glyph 37 on the one face; the
    first view shows the metrics of 36 before the second load and those of
    37 after it. *)
Lemma load_glyph_views_share_the_slot_witness :
  exec (E := Toy.engine)
       (first_view_before_second_load Toy.the_face 36 0 Glyph.metrics)
       Toy.opened
    = mkRun (E := Toy.engine) (Returned (64 * 36))
            (Toy.mkWorld true true true (0, 0, 0, 0) 36 false)
            [FT_Load_Glyph Toy.face_handle 36 0] /\
  exec (E := Toy.engine)
       (first_view_after_second_load Toy.the_face 36 0 37 0 Glyph.metrics)
       Toy.opened
    = mkRun (E := Toy.engine) (Returned (64 * 37))
            (Toy.mkWorld true true true (0, 0, 0, 0) 37 false)
            [FT_Load_Glyph Toy.face_handle 36 0;
             FT_Load_Glyph Toy.face_handle 37 0] /\
  outcome (exec (E := Toy.engine)
             (first_view_after_second_load Toy.the_face 36 0 37 0
                Glyph.metrics) Toy.opened)
    <> outcome (exec (E := Toy.engine)
                  (first_view_before_second_load Toy.the_face 36 0
                     Glyph.metrics) Toy.opened).
Proof.
  destruct (load_glyph_views_share_the_slot (E := Toy.engine)
              Toy.the_face 36 0 37 0 Toy.opened
              Toy_single_slot_contract eq_refl eq_refl)
    as (_ & _ & Hafter & _ & _ & _ & Hbefore & _ & _ & _ & Hstale).
  split; [exact Hbefore | split; [exact Hafter |]].
  apply Hstale. vm_compute. discriminate.
Defined.
